(** * The streaming speech-recognition relay: [backend/server.py]

    The WebSocket handler [ws_endpoint] is embedded as a program over the
    calls it makes on its WebSocket and on its Vosk recognizer.  The client
    and the transport are a script: the list of outcomes of the successive
    [websocket.receive()] calls and the list of outcomes of the successive
    outgoing calls.  The handler is total on every script; when the script of
    incoming frames is used up it is suspended in [receive]. *)

From Stdlib Require Import ZArith.
From stdpp Require Import gmap strings list.

Local Open Scope string_scope.
Local Open Scope list_scope.

(** ** Python values and exceptions *)

(** The values an ASGI message dictionary holds. *)
Inductive pyval : Type :=
  | PNone
  | PInt (n : Z)
  | PStr (s : string)
  | PBytes (b : list Byte.byte).

(** A received message is a Python [dict] with string keys. *)
Abbreviation message := (gmap string pyval).

(** The exception classes the handler tells apart.  [Exception msg] is any
    instance of [Exception] that is not a [WebSocketDisconnect], with
    [str(e) = msg]; [BaseException msg] is an exception outside [Exception]
    (cancellation, keyboard interrupt). *)
Inductive exn : Type :=
  | WebSocketDisconnect (code : Z)
  | Exception (msg : string)
  | BaseException (msg : string).

(** [value == "literal"], for a value of any type. *)
Definition py_eq_str (v : pyval) (lit : string) : bool :=
  match v with
  | PStr s => String.eqb s lit
  | _ => false
  end.

(** ** The calls on the WebSocket *)

(** One entry per call the handler makes on [websocket], with what the call
    gave: the message or the exception of a [receive], the exception (if
    any) of an outgoing call. *)
Inductive io : Type :=
  | Accept (raised : option exn)
  | Receive (got : exn + message)
  | SendText (text : string) (raised : option exn)
  | Close (code : Z) (reason : string) (raised : option exn).

(** The outcomes the transport has in store for the outgoing calls, first
    call first; once the list is used up every call succeeds. *)
Abbreviation faults := (list (option exn)).

(** Computations of the handler: they consume outcomes of outgoing calls,
    log their calls, and return a value or raise. *)
Definition WS (A : Type) : Type := faults -> list io * faults * (exn + A).

Definition ret {A} (a : A) : WS A := fun fs => ([], fs, inr a).

Definition raise {A} (e : exn) : WS A := fun fs => ([], fs, inl e).

Definition bind {A B} (c : WS A) (k : A -> WS B) : WS B :=
  fun fs =>
    match c fs with
    | (tr, fs', inl e) => (tr, fs', inl e)
    | (tr, fs', inr a) =>
        match k a fs' with
        | (tr', fs'', r) => (tr ++ tr', fs'', r)
        end
    end.

Notation "'call' x ':=' c 'in' k" := (bind c (fun x => k))
  (at level 10, x binder, c at level 100, k at level 200).
Notation "'run' c 'in' k" := (bind c (fun _ => k))
  (at level 10, c at level 100, k at level 200).

(** A call into a library that returns or raises. *)
Definition lift {A} (r : exn + A) : WS A :=
  match r with
  | inl e => raise e
  | inr a => ret a
  end.

(** [try: body except ...]: [handler e] is the clause that catches [e], if
    one does. *)
Definition try_except {A} (body : WS A) (handler : exn -> option (WS A)) : WS A :=
  fun fs =>
    match body fs with
    | (tr, fs', inr a) => (tr, fs', inr a)
    | (tr, fs', inl e) =>
        match handler e with
        | None => (tr, fs', inl e)
        | Some h =>
            match h fs' with
            | (tr', fs'', r) => (tr ++ tr', fs'', r)
            end
        end
    end.

Definition outgoing (entry : option exn -> io) : WS unit :=
  fun fs =>
    match fs with
    | [] => ([entry None], [], inr tt)
    | None :: fs' => ([entry None], fs', inr tt)
    | Some e :: fs' => ([entry (Some e)], fs', inl e)
    end.

Definition accept : WS unit := outgoing Accept.
Definition send_text (text : string) : WS unit := outgoing (SendText text).
Definition close (code : Z) (reason : string) : WS unit := outgoing (Close code reason).

(** [websocket.receive()], when the client's next move is [got]. *)
Definition receive (got : exn + message) : WS message :=
  fun fs => ([Receive got], fs, got).

(** [len(data)] *)
Definition len (data : pyval) : WS nat :=
  match data with
  | PBytes b => ret (length b)
  | PStr s => ret (String.length s)
  | PNone => raise (Exception "object of type 'NoneType' has no len()")
  | PInt _ => raise (Exception "object of type 'int' has no len()")
  end.

(** The calls that are events sent to the client: the [send_text] calls that
    did not raise. *)
Definition emitted (tr : list io) : list string :=
  omap (fun c => match c with SendText s None => Some s | _ => None end) tr.

(** The outgoing calls of a trace, the [receive] calls left out. *)
Definition is_outgoing (c : io) : bool :=
  match c with
  | Receive _ => false
  | _ => true
  end.

Definition outbound (tr : list io) : list io := List.filter is_outgoing tr.

Definition SAMPLE_RATE : Z := 16000%Z.

(** ** How a disconnection reaches the handler

    Starlette's [WebSocket.receive] does not raise when the client goes
    away: it returns the ASGI message of the disconnection, and raises a
    [RuntimeError] when it is called again after that. *)
Definition disconnect_message (code : Z) : message :=
  {[ "type" := PStr "websocket.disconnect"; "code" := PInt code ]}.

(** The character of code 34, the double quote. *)
Definition quote : string := String (Ascii.ascii_of_nat 34) EmptyString.

(** [str(e)] of that [RuntimeError]. *)
Definition receive_after_disconnect : string :=
  "Cannot call " +:+ quote +:+ "receive" +:+ quote +:+
  " once a disconnect message has been received.".

(** What the successive [receive] calls give when the client disconnects
    with close code [code]. *)
Definition client_disconnects (code : Z) : list (exn + message) :=
  [inr (disconnect_message code); inl (Exception receive_after_disconnect)].

(** ** The engine (Vosk) and the JSON library *)

(** A [KaldiRecognizer] object: the model and the sample rate it was built
    with, its word-detail flag, and the state of the native recogniser
    behind it. *)
Record Recognizer (Model Decoder : Type) : Type := MkRecognizer {
  rec_model : Model;
  rec_sample_rate : Z;
  rec_words : bool;
  rec_decoder : Decoder
}.

Arguments MkRecognizer {Model Decoder}.
Arguments rec_model {Model Decoder}.
Arguments rec_sample_rate {Model Decoder}.
Arguments rec_words {Model Decoder}.
Arguments rec_decoder {Model Decoder}.

(** The Vosk library.  [MODEL] is the model loaded at start-up.  The native
    entry points return or raise; they read the recogniser and give its next
    decoder state. *)
Class Vosk : Type := {
  Model : Type;
  Decoder : Type;
  MODEL : Model;
  vosk_recognizer_new : Model -> Z -> exn + Decoder;
  vosk_recognizer_accept_waveform :
    Recognizer Model Decoder -> pyval -> exn + (bool * Decoder);
  vosk_recognizer_result : Recognizer Model Decoder -> exn + (string * Decoder);
  vosk_recognizer_partial_result :
    Recognizer Model Decoder -> exn + (string * Decoder);
  vosk_recognizer_final_result :
    Recognizer Model Decoder -> exn + (string * Decoder)
}.

(** The dictionaries the handler serialises: [{"type": t, "data": d}] with
    [d] an object parsed from an engine result or a Python string. *)
Inductive evdata (pyobj : Type) : Type :=
  | Parsed (j : pyobj)
  | Str (s : string).

Arguments Parsed {pyobj}.
Arguments Str {pyobj}.

Record event (pyobj : Type) : Type := MkEvent {
  ev_type : string;
  ev_data : evdata pyobj
}.

Arguments MkEvent {pyobj}.
Arguments ev_type {pyobj}.
Arguments ev_data {pyobj}.

(** The [json] module; [pyobj] is the type of the objects [json.loads]
    builds. *)
Class Json : Type := {
  pyobj : Type;
  json_loads : string -> exn + pyobj;
  json_dumps : event pyobj -> string
}.

Abbreviation recognizer := (Recognizer Model Decoder).

Section Handler.

Context {V : Vosk} {J : Json}.

Definition with_decoder (rec : recognizer) (d : Decoder) : recognizer :=
  MkRecognizer (rec_model rec) (rec_sample_rate rec) (rec_words rec) d.

(** [KaldiRecognizer(model, sample_rate)]; word detail is off until
    [SetWords] turns it on. *)
Definition KaldiRecognizer (model : Model) (sample_rate : Z) : WS recognizer :=
  call d := lift (vosk_recognizer_new model sample_rate) in
  ret (MkRecognizer model sample_rate false d).

Definition SetWords (enable : bool) (rec : recognizer) : WS recognizer :=
  ret (MkRecognizer (rec_model rec) (rec_sample_rate rec) enable (rec_decoder rec)).

Definition AcceptWaveform (data : pyval) (rec : recognizer) : WS (bool * recognizer) :=
  call '(ready, d) := lift (vosk_recognizer_accept_waveform rec data) in
  ret (ready, with_decoder rec d).

Definition Result (rec : recognizer) : WS (string * recognizer) :=
  call '(s, d) := lift (vosk_recognizer_result rec) in
  ret (s, with_decoder rec d).

Definition PartialResult (rec : recognizer) : WS (string * recognizer) :=
  call '(s, d) := lift (vosk_recognizer_partial_result rec) in
  ret (s, with_decoder rec d).

Definition FinalResult (rec : recognizer) : WS (string * recognizer) :=
  call '(s, d) := lift (vosk_recognizer_final_result rec) in
  ret (s, with_decoder rec d).

(** ** The handler *)

(** How one pass through the body of [while True] ends: at the next pass
    with the recognizer [rec] ([continue], or the end of the body), or out
    of the loop ([break]). *)
Inductive flow : Type :=
  | Next (rec : recognizer)
  | Break.

(** The body of the loop, after [message = await websocket.receive()]. *)
Definition iteration (rec : recognizer) (message : message) : WS flow :=
  match message !! "bytes" with
  | Some data =>
      call n := len data in
      if Nat.eqb n 0 then ret (Next rec)
      else
        call '(final_ready, rec) := AcceptWaveform data rec in
        if final_ready then
          call '(result, rec) := Result rec in
          call j := lift (json_loads result) in
          run send_text (json_dumps (MkEvent "final" (Parsed j))) in
          ret (Next rec)
        else
          call '(partial, rec) := PartialResult rec in
          call j := lift (json_loads partial) in
          run send_text (json_dumps (MkEvent "partial" (Parsed j))) in
          ret (Next rec)
  | None =>
      match message !! "text" with
      | Some text =>
          if py_eq_str text "__end__" then
            call '(s, rec) := FinalResult rec in
            call final_json := lift (json_loads s) in
            run send_text (json_dumps (MkEvent "final" (Parsed final_json))) in
            ret Break
          else if py_eq_str text "__reset__" then
            call rec := KaldiRecognizer MODEL SAMPLE_RATE in
            call rec := SetWords true rec in
            run send_text (json_dumps (MkEvent "system" (Str "reset"))) in
            ret (Next rec)
          else ret (Next rec)
      | None => ret (Next rec)
      end
  end.

(** How the [while True] loop stands when the script of incoming frames
    is used up or the loop is left. *)
Inductive loop_end : Type :=
  | Pending (rec : recognizer)
  | Broke.

(** The loop, on the outcomes [inbox] of the successive [receive] calls. *)
Fixpoint loop (rec : recognizer) (inbox : list (exn + message)) : WS loop_end :=
  match inbox with
  | [] => ret (Pending rec)
  | got :: inbox' =>
      call message := receive got in
      call fl := iteration rec message in
      match fl with
      | Next rec' => loop rec' inbox'
      | Break => ret Broke
      end
  end.

(** Where a connection stands: the handler is waiting in [receive] with
    the recognizer [rec], or it has returned. *)
Inductive status : Type :=
  | Awaiting (rec : recognizer)
  | Returned.

Definition status_of (e : loop_end) : status :=
  match e with
  | Pending rec => Awaiting rec
  | Broke => Returned
  end.

(** The two [except] clauses, in the order of the source. *)
Definition handlers (e : exn) : option (WS status) :=
  match e with
  | WebSocketDisconnect _ => Some (ret Returned)
  | Exception msg => Some (run close 1011%Z msg in ret Returned)
  | BaseException _ => None
  end.

(** The [try] statement, with the recognizer [rec] in hand. *)
Definition serve (rec : recognizer) (inbox : list (exn + message)) : WS status :=
  try_except (call e := loop rec inbox in ret (status_of e)) handlers.

(** The recognizer of a new connection, and of a connection after
    [__reset__]. *)
Definition new_recognizer : WS recognizer :=
  call rec := KaldiRecognizer MODEL SAMPLE_RATE in
  SetWords true rec.

Definition ws_endpoint (inbox : list (exn + message)) : WS status :=
  run accept in
  call rec := new_recognizer in
  serve rec inbox.

(** ** Vocabulary of the statements *)

(** The first [n] outgoing calls succeed. *)
Definition quiet (n : nat) (fs : faults) : Prop :=
  Forall (fun o => o = None) (take n fs).

(** A binary frame with payload [b]. *)
Definition carries (m : message) (b : list Byte.byte) : Prop :=
  m !! "bytes" = Some (PBytes b).

(** A control frame: a text payload and no binary one. *)
Definition control (m : message) (text : pyval) : Prop :=
  m !! "bytes" = None /\ m !! "text" = Some text.

(** The frames [receive] got, in the order of the calls. *)
Definition received (tr : list io) : list (exn + message) :=
  omap (fun c => match c with Receive got => Some got | _ => None end) tr.


(** The call [close(code, reason)] comes last, after the calls [before],
    and the handler returns, unless [close] itself raises. *)
Definition closes_with (code : Z) (reason : string) (before : list io)
    (fs : faults) (res : list io * faults * (exn + status)) : Prop :=
  exists o,
    res = (before ++ [Close code reason o], drop 1 fs,
           match o with None => inr Returned | Some e => inl e end).

(** What feeding the payload [data] to [rec] gives when nothing raises:
    the event for the client and the recognizer afterwards. *)
Inductive fed (rec : recognizer) (data : pyval) : event pyobj -> recognizer -> Prop :=
  | fed_final d s d' j :
      vosk_recognizer_accept_waveform rec data = inr (true, d) ->
      vosk_recognizer_result (with_decoder rec d) = inr (s, d') ->
      json_loads s = inr j ->
      fed rec data (MkEvent "final" (Parsed j))
        (with_decoder (with_decoder rec d) d')
  | fed_partial d s d' j :
      vosk_recognizer_accept_waveform rec data = inr (false, d) ->
      vosk_recognizer_partial_result (with_decoder rec d) = inr (s, d') ->
      json_loads s = inr j ->
      fed rec data (MkEvent "partial" (Parsed j))
        (with_decoder (with_decoder rec d) d').

(** Feeding the payloads of a sequence of binary frames, one after the
    other. *)
Inductive feeds : recognizer -> list message -> list (event pyobj) -> recognizer -> Prop :=
  | feeds_nil rec : feeds rec [] [] rec
  | feeds_cons rec m b ev rec1 ms evs rec2 :
      carries m b ->
      fed rec (PBytes b) ev rec1 ->
      feeds rec1 ms evs rec2 ->
      feeds rec (m :: ms) (ev :: evs) rec2.

(** The calls of one frame answered by one event. *)
Definition exchange (m : message) (ev : event pyobj) : list io :=
  [Receive (inr m); SendText (json_dumps ev) None].

(** What can go wrong with the engine while a payload is fed: the call
    that raises [e] is [AcceptWaveform], or [Result] after a reported
    segment, or [PartialResult] otherwise. *)
Inductive feed_raises (rec : recognizer) (data : pyval) (e : exn) : Prop :=
  | raises_accept :
      vosk_recognizer_accept_waveform rec data = inl e ->
      feed_raises rec data e
  | raises_result d :
      vosk_recognizer_accept_waveform rec data = inr (true, d) ->
      vosk_recognizer_result (with_decoder rec d) = inl e ->
      feed_raises rec data e
  | raises_partial d :
      vosk_recognizer_accept_waveform rec data = inr (false, d) ->
      vosk_recognizer_partial_result (with_decoder rec d) = inl e ->
      feed_raises rec data e.

(** Where the handler stands between two calls on the WebSocket: no frame
    read yet, a frame read and not answered, a frame answered by an event,
    a [send_text] that raised, the connection closed by the handler. *)
Inductive phase : Type := Idle | Read | Answered | Failed | Shut.

(** The calls the handler may make in each phase: it reads the next frame
    only when it is idle or done with the previous one, it sends at most
    one text per frame read, and [close] ends everything. *)
Definition pace (p : phase) (c : io) : option phase :=
  match c, p with
  | Receive _, (Idle | Read | Answered) => Some Read
  | SendText _ None, Read => Some Answered
  | SendText _ (Some _), Read => Some Failed
  | Close _ _ _, (Read | Answered | Failed) => Some Shut
  | _, _ => None
  end.

(** The phases in which the handler may read a frame. *)
Definition reading (p : phase) : Prop := p = Idle \/ p = Read \/ p = Answered.

Fixpoint paces (p : phase) (tr : list io) : option phase :=
  match tr with
  | [] => Some p
  | c :: tr' =>
      match pace p c with
      | Some p' => paces p' tr'
      | None => None
      end
  end.

Definition paced (tr : list io) : bool :=
  match paces Idle tr with
  | Some _ => true
  | None => false
  end.

(** The frames the body of the loop passes over without a call: a payload
    of length zero, a text outside the vocabulary, neither entry. *)
Definition ignored (m : message) : bool :=
  match m !! "bytes" with
  | Some (PBytes []) => true
  | Some (PStr EmptyString) => true
  | Some _ => false
  | None =>
      match m !! "text" with
      | Some text => negb (py_eq_str text "__end__") && negb (py_eq_str text "__reset__")
      | None => true
      end
  end.

(** The moves of the client that are left when the ignored frames are
    taken out. *)
Definition kept (got : exn + message) : bool :=
  match got with
  | inr m => negb (ignored m)
  | inl _ => true
  end.

(** The events of the wire protocol: [partial] and [final] with an object
    parsed from a text, [system] with the string [reset]. *)
Definition protocol_event (ev : event pyobj) : Prop :=
  (exists s j, json_loads s = inr j /\
     (ev = MkEvent "partial" (Parsed j) \/ ev = MkEvent "final" (Parsed j))) \/
  ev = MkEvent "system" (Str "reset").

(** The calls of the loop itself: [receive], and [send_text] with the
    serialisation of a protocol event. *)
Definition loop_call (c : io) : Prop :=
  match c with
  | Receive _ => True
  | SendText text _ => exists ev, protocol_event ev /\ text = json_dumps ev
  | _ => False
  end.

(** The texts handed to [send_text] are serialised protocol events. *)
Definition protocol_call (c : io) : Prop :=
  match c with
  | SendText text _ => exists ev, protocol_event ev /\ text = json_dumps ev
  | _ => True
  end.

(** What a frame read in phase [Read] still allows: one event. *)
Definition credit (p : phase) : nat :=
  match p with
  | Read => 1
  | _ => 0
  end.




End Handler.

(** ** A small engine to run the handler on

    A recogniser that counts the bytes it has buffered and reports a segment
    once four or more are in; it refuses a payload that is not a whole
    number of 16-bit samples.  Its results spell the count out.  The JSON
    side parses every non-empty text to itself. *)
Module Toy.

Fixpoint bar (n : nat) : string :=
  match n with
  | O => ""
  | S n' => ("#" ++ bar n')%string
  end.

Definition accept_waveform (rec : Recognizer unit nat) (data : pyval)
  : exn + (bool * nat) :=
  match data with
  | PBytes b =>
      if Nat.even (length b) then
        let n := (rec_decoder rec + length b)%nat in
        inr (Nat.leb 4 n, n)
      else inl (Exception "Failed to process waveform")
  | _ => inl (Exception "Failed to process waveform")
  end.

Definition vosk : Vosk := {|
  Model := unit;
  Decoder := nat;
  MODEL := tt;
  vosk_recognizer_new := fun _ rate =>
    if Z.ltb 0 rate then inr O else inl (Exception "Failed to create a recognizer");
  vosk_recognizer_accept_waveform := accept_waveform;
  vosk_recognizer_result := fun rec => inr ("text " ++ bar (rec_decoder rec), O)%string;
  vosk_recognizer_partial_result := fun rec =>
    inr ("partial " ++ bar (rec_decoder rec), rec_decoder rec)%string;
  vosk_recognizer_final_result := fun rec =>
    inr ("text " ++ bar (rec_decoder rec), O)%string
|}.

Definition dumps (ev : event string) : string :=
  (ev_type ev ++ ": " ++ match ev_data ev with Parsed j => j | Str s => s end)%string.

Definition json : Json := {|
  pyobj := string;
  json_loads := fun s =>
    if String.eqb s "" then inl (Exception "Expecting value") else inr s;
  json_dumps := dumps
|}.

Definition audio (b : list Byte.byte) : message := {[ "bytes" := PBytes b ]}.
Definition text (s : string) : message := {[ "text" := PStr s ]}.
Definition chunk : list Byte.byte := [Byte.x01; Byte.x02].
Definition odd_chunk : list Byte.byte := [Byte.x01; Byte.x02; Byte.x03].

(** The recognizer of a new connection, and the one that has buffered
    [n] bytes. *)
Definition buffered (n : nat) : Recognizer unit nat := MkRecognizer tt 16000%Z true n.

Definition audio_frames : list message := [audio chunk; audio chunk; audio chunk].

Definition answers : list (event string) :=
  [ MkEvent "partial" (Parsed "partial ##");
    MkEvent "final" (Parsed "text ####");
    MkEvent "partial" (Parsed "partial ##") ].

(** The same engine when no recogniser can be built. *)
Definition broken : Vosk := {|
  Model := unit;
  Decoder := nat;
  MODEL := tt;
  vosk_recognizer_new := fun _ _ => inl (Exception "Failed to create a recognizer");
  vosk_recognizer_accept_waveform := accept_waveform;
  vosk_recognizer_result := fun rec => inr ("text " ++ bar (rec_decoder rec), O)%string;
  vosk_recognizer_partial_result := fun rec =>
    inr ("partial " ++ bar (rec_decoder rec), rec_decoder rec)%string;
  vosk_recognizer_final_result := fun rec =>
    inr ("text " ++ bar (rec_decoder rec), O)%string
|}.


End Toy.

(** * Properties of the handler *)

Section Facts.

Context {V : Vosk} {J : Json}.

Implicit Types (rec : recognizer) (m : message) (fs : faults)
  (inbox : list (exn + message)) (tr : list io).

(** ** How the computations evaluate *)

Lemma outgoing_quiet (entry : option exn -> io) fs :
  quiet 1 fs -> outgoing entry fs = ([entry None], drop 1 fs, inr tt).
Proof.
  destruct fs as [|[e|] fs']; cbn; try reflexivity.
  intros H. apply Forall_cons in H as [H _]. discriminate H.
Qed.

Lemma outgoing_shape (entry : option exn -> io) fs :
  exists o, outgoing entry fs
            = ([entry o], drop 1 fs, match o with None => inr tt | Some e => inl e end).
Proof.
  destruct fs as [|[e|] fs']; cbn.
  - by exists None.
  - by exists (Some e).
  - by exists None.
Qed.

Lemma loop_cons rec got inbox fs :
  loop rec (got :: inbox) fs =
    match got with
    | inl e => ([Receive got], fs, inl e)
    | inr m =>
        match iteration rec m fs with
        | (tr, fs', inl e) => (Receive got :: tr, fs', inl e)
        | (tr, fs', inr Break) => (Receive got :: tr, fs', inr Broke)
        | (tr, fs', inr (Next rec')) =>
            match loop rec' inbox fs' with
            | (tr', fs'', r) => (Receive got :: tr ++ tr', fs'', r)
            end
        end
    end.
Proof.
  destruct got as [e|m]; [reflexivity|].
  cbn [loop]. unfold bind at 1. unfold receive. cbn [app].
  unfold bind at 1.
  destruct (iteration rec m fs) as [[tr fs'] [e|[rec'|]]]; cbn; try reflexivity.
  - destruct (loop rec' inbox fs') as [[tr' fs''] r]. reflexivity.
  - by rewrite app_nil_r.
Qed.

Lemma loop_app rec pre post fs :
  loop rec (pre ++ post) fs =
    match loop rec pre fs with
    | (tr, fs', inr (Pending rec')) =>
        match loop rec' post fs' with
        | (tr', fs'', r) => (tr ++ tr', fs'', r)
        end
    | other => other
    end.
Proof.
  revert rec fs. induction pre as [|got pre IH]; intros rec fs.
  - cbn [loop app]. unfold ret. by destruct (loop rec post fs) as [[tr' fs''] r].
  - rewrite <- app_comm_cons, !loop_cons.
    destruct got as [e|m]; [reflexivity|].
    destruct (iteration rec m fs) as [[tr fs'] [e|[rec'|]]]; try reflexivity.
    rewrite IH.
    destruct (loop rec' pre fs') as [[tr1 fs1] [e|[rec1|]]]; try reflexivity.
    destruct (loop rec1 post fs1) as [[tr2 fs2] r].
    by rewrite app_comm_cons, app_assoc.
Qed.

Lemma serve_eq rec inbox fs :
  serve rec inbox fs =
    match loop rec inbox fs with
    | (tr, fs', inr e) => (tr, fs', inr (status_of e))
    | (tr, fs', inl (WebSocketDisconnect _)) => (tr, fs', inr Returned)
    | (tr, fs', inl (Exception msg)) =>
        match close 1011%Z msg fs' with
        | (tr', fs'', inl e) => (tr ++ tr', fs'', inl e)
        | (tr', fs'', inr _) => (tr ++ tr', fs'', inr Returned)
        end
    | (tr, fs', inl (BaseException msg)) => (tr, fs', inl (BaseException msg))
    end.
Proof.
  unfold serve, try_except, bind.
  destruct (loop rec inbox fs) as [[tr fs'] [[c|msg|msg]|e]]; cbn [handlers];
    unfold bind, ret; rewrite ?app_nil_r; try reflexivity.
  destruct (close 1011 msg fs') as [[tr' fs''] [e|[]]];
    by rewrite ?app_nil_r.
Qed.

Lemma serve_cons_next rec m inbox fs tr1 fs1 rec1 :
  iteration rec m fs = (tr1, fs1, inr (Next rec1)) ->
  serve rec (inr m :: inbox) fs =
    match serve rec1 inbox fs1 with
    | (tr, fs', r) => (Receive (inr m) :: tr1 ++ tr, fs', r)
    end.
Proof.
  intros Hit. rewrite !serve_eq, loop_cons, Hit.
  destruct (loop rec1 inbox fs1) as [[tr fs'] [[c|msg|msg]|e]]; try reflexivity.
  destruct (close 1011 msg fs') as [[tr' fs''] [e|[]]];
    by rewrite app_comm_cons, app_assoc.
Qed.

Lemma serve_app rec pre post fs tr fs' rec' :
  loop rec pre fs = (tr, fs', inr (Pending rec')) ->
  serve rec (pre ++ post) fs =
    match serve rec' post fs' with
    | (tr', fs'', r) => (tr ++ tr', fs'', r)
    end.
Proof.
  intros Hpre. rewrite !serve_eq, loop_app, Hpre.
  destruct (loop rec' post fs') as [[tr1 fs1] [[c|msg|msg]|e]]; try reflexivity.
  destruct (close 1011 msg fs1) as [[tr2 fs2] [e|[]]]; by rewrite app_assoc.
Qed.

Lemma serve_app_left rec pre post fs :
  (forall rec', snd (loop rec pre fs) <> inr (Pending rec')) ->
  serve rec (pre ++ post) fs = serve rec pre fs.
Proof.
  intros Hne. rewrite !serve_eq, loop_app.
  destruct (loop rec pre fs) as [[tr0 fs0] [e|[rec'|]]]; try reflexivity.
  by destruct (Hne rec').
Qed.

Lemma py_eq_str_false (v : pyval) (lit : string) :
  v <> PStr lit -> py_eq_str v lit = false.
Proof.
  destruct v as [| |s|]; cbn; try reflexivity.
  intros Hne. apply String.eqb_neq. congruence.
Qed.

Lemma outbound_app tr tr' : outbound (tr ++ tr') = outbound tr ++ outbound tr'.
Proof. apply List.filter_app. Qed.

(** ** Frames that change nothing *)

(** C8: a text frame whose text is neither [__end__] nor [__reset__] makes
    no call on the WebSocket and leaves the recognizer as it was, and the
    handler goes on to the next frame: the rest of the connection is the
    one the handler would have had without this frame. *)
Theorem unknown_text_is_ignored rec m (text : pyval) inbox fs :
  control m text ->
  text <> PStr "__end__" ->
  text <> PStr "__reset__" ->
  iteration rec m fs = ([], fs, inr (Next rec)) /\
  serve rec (inr m :: inbox) fs =
    match serve rec inbox fs with
    | (tr, fs', r) => (Receive (inr m) :: tr, fs', r)
    end.
Proof.
  intros [Hb Ht] Hend Hreset.
  assert (Hit : iteration rec m fs = ([], fs, inr (Next rec))).
  { unfold iteration. rewrite Hb, Ht.
    by rewrite (py_eq_str_false _ _ Hend), (py_eq_str_false _ _ Hreset). }
  split; [exact Hit|].
  by rewrite (serve_cons_next _ _ _ _ _ _ _ Hit).
Qed.

(** C4: a binary frame of length zero makes no call on the WebSocket and
    leaves the recognizer as it was, in every state of the connection; the
    outgoing calls of a connection that receives such a frame anywhere
    among its frames are those of the connection without it, and both end
    the same way. *)
Theorem empty_chunk_is_noop rec m pre post fs :
  carries m [] ->
  iteration rec m fs = ([], fs, inr (Next rec)) /\
  match serve rec (pre ++ inr m :: post) fs, serve rec (pre ++ post) fs with
  | (tr1, fs1, r1), (tr2, fs2, r2) =>
      outbound tr1 = outbound tr2 /\ emitted tr1 = emitted tr2 /\
      fs1 = fs2 /\ r1 = r2
  end.
Proof.
  intros Hm.
  assert (Hit : forall rec' fs', iteration rec' m fs' = ([], fs', inr (Next rec'))).
  { intros rec' fs'. unfold iteration. by rewrite Hm. }
  split; [apply Hit|].
  destruct (loop rec pre fs) as [[tr fs'] r] eqn:Hpre.
  destruct r as [e|[rec'|]].
  - rewrite !(serve_app_left _ pre _ fs) by (by rewrite Hpre).
    by destruct (serve rec pre fs) as [[tr1 fs1] r1].
  - rewrite !(serve_app _ _ _ _ _ _ _ Hpre).
    rewrite (serve_cons_next _ _ _ _ _ _ _ (Hit rec' fs')).
    destruct (serve rec' post fs') as [[tr1 fs1] r1].
    cbn [app]. rewrite !outbound_app. unfold emitted. rewrite !omap_app.
    by cbn.
  - rewrite !(serve_app_left _ pre _ fs) by (by rewrite Hpre).
    by destruct (serve rec pre fs) as [[tr1 fs1] r1].
Qed.

(** ** Audio frames *)

Lemma iteration_audio rec m (b : list Byte.byte) fs tr fs' (fl : flow) :
  carries m b ->
  b <> [] ->
  iteration rec m fs = (tr, fs', inr fl) ->
  exists ev rec',
    fl = Next rec' /\ fed rec (PBytes b) ev rec' /\
    tr = [SendText (json_dumps ev) None] /\ quiet 1 fs /\ fs' = drop 1 fs.
Proof.
  intros Hm Hb. unfold iteration. rewrite Hm. cbn [len].
  unfold bind at 1. unfold ret at 1.
  destruct b as [|b0 b]; [done|]. cbn [length Nat.eqb app].
  unfold AcceptWaveform, Result, PartialResult, bind, lift, ret, raise, send_text.
  destruct (vosk_recognizer_accept_waveform rec _) as [e|[[] d]] eqn:Hacc;
    [discriminate| |].
  - destruct (vosk_recognizer_result _) as [e|[s d']] eqn:Hres; [discriminate|].
    destruct (json_loads s) as [e|j] eqn:Hj; [discriminate|].
    destruct fs as [|[e|] fs0]; cbn; intros [= <- <- <-]; try discriminate;
      (eexists _, _; split; [reflexivity|]; split;
       [by eapply fed_final|]; split; [reflexivity|]; split; [|reflexivity]).
    + by constructor.
    + by repeat constructor.
  - destruct (vosk_recognizer_partial_result _) as [e|[s d']] eqn:Hres; [discriminate|].
    destruct (json_loads s) as [e|j] eqn:Hj; [discriminate|].
    destruct fs as [|[e|] fs0]; cbn; intros [= <- <- <-]; try discriminate;
      (eexists _, _; split; [reflexivity|]; split;
       [by eapply fed_partial|]; split; [reflexivity|]; split; [|reflexivity]).
    + by constructor.
    + by repeat constructor.
Qed.

Lemma fed_type rec (data : pyval) (ev : event pyobj) rec' :
  fed rec data ev rec' -> ev_type ev = "partial" \/ ev_type ev = "final".
Proof. destruct 1; [by right | by left]. Qed.

Lemma quiet_S (n : nat) fs : quiet (S n) fs -> quiet 1 fs /\ quiet n (drop 1 fs).
Proof.
  unfold quiet. destruct fs as [|o fs']; cbn.
  - intros _. by rewrite take_nil.
  - intros H. apply Forall_cons in H as [Ho Hrest].
    split; [|by rewrite drop_0]. rewrite take_0. by repeat constructor.
Qed.

Lemma iteration_fed rec m (b : list Byte.byte) (ev : event pyobj) rec1 fs :
  carries m b ->
  b <> [] ->
  fed rec (PBytes b) ev rec1 ->
  quiet 1 fs ->
  iteration rec m fs = ([SendText (json_dumps ev) None], drop 1 fs, inr (Next rec1)).
Proof.
  intros Hm Hb Hfed Hq. unfold iteration. rewrite Hm.
  destruct b as [|b0 b]; [done|]. cbn [len length].
  unfold AcceptWaveform, Result, PartialResult, bind, lift, ret, raise, send_text.
  cbn [Nat.eqb].
  destruct Hfed as [d s d' j Hacc Hres Hj|d s d' j Hacc Hres Hj];
    rewrite Hacc; cbn; rewrite Hres; cbn; rewrite Hj; cbn;
    by rewrite (outgoing_quiet _ _ Hq).
Qed.

(** Conversely, when the engine answers every payload and the
    transport takes every event, the loop is still open after the frames
    and has sent those answers. *)
Lemma feeds_answered rec (frames : list message) (evs : list (event pyobj)) rec' fs :
  Forall (fun m => exists b, carries m b /\ b <> []) frames ->
  feeds rec frames evs rec' ->
  quiet (length frames) fs ->
  loop rec (inr <$> frames) fs
    = (concat (zip_with exchange frames evs), drop (length frames) fs,
       inr (Pending rec')).
Proof.
  intros Hall Hfeeds. revert fs.
  induction Hfeeds as [rec|rec m b ev rec1 ms evs rec2 Hm Hfed Hfeeds IH];
    intros fs Hq.
  - reflexivity.
  - apply Forall_cons in Hall as [(b' & Hm' & Hb') Hall].
    assert (b' = b) as -> by (unfold carries in *; congruence).
    cbn [length] in Hq. apply quiet_S in Hq as [Hq1 Hq].
    rewrite fmap_cons, loop_cons, (iteration_fed _ _ _ _ _ _ Hm Hb' Hfed Hq1).
    rewrite (IH Hall _ Hq). cbn [zip_with concat length].
    by rewrite drop_drop.
Qed.

(** C1: when a sequence of non-empty binary frames has been received and
    the connection is still open, every frame was answered by exactly one
    event, sent before the next frame was read: a [final] event with the
    parsed [Result] of the engine when [AcceptWaveform] reported a
    segment, a [partial] event with its parsed [PartialResult] otherwise.
    So the events are as many as the frames, and all of them are
    [partial] or [final]. *)
Theorem one_event_per_chunk rec (frames : list message) fs tr fs' rec' :
  Forall (fun m => exists b, carries m b /\ b <> []) frames ->
  loop rec (inr <$> frames) fs = (tr, fs', inr (Pending rec')) ->
  exists evs : list (event pyobj),
    feeds rec frames evs rec' /\
    tr = concat (zip_with exchange frames evs) /\
    emitted tr = json_dumps <$> evs /\
    length evs = length frames /\
    Forall (fun ev => ev_type ev = "partial" \/ ev_type ev = "final") evs.
Proof.
  intros Hall. revert rec fs tr.
  induction Hall as [|m frames [b [Hm Hb]] Hall IH]; intros rec fs tr.
  - cbn. unfold ret. intros [= <- <- <-]. exists []. repeat split; constructor.
  - rewrite fmap_cons, loop_cons.
    destruct (iteration rec m fs) as [[tr1 fs1] [e|fl]] eqn:Hit; [discriminate|].
    destruct (iteration_audio _ _ _ _ _ _ _ Hm Hb Hit)
      as (ev & rec1 & -> & Hfed & -> & Hq & ->).
    destruct (loop rec1 (inr <$> frames) (drop 1 fs)) as [[tr2 fs2] r] eqn:Hrest.
    intros [= <- <- ->].
    destruct (IH _ _ _ Hrest) as (evs & Hfeeds & -> & Hem & Hlen & Htypes).
    exists (ev :: evs). repeat split.
    + by econstructor.
    + cbn -[exchange]. by rewrite <- Hem.
    + cbn. by rewrite Hlen.
    + constructor; [by eapply fed_type | exact Htypes].
Qed.

(** ** The shape of a pass through the loop *)

Ltac split_iteration :=
  unfold iteration, AcceptWaveform, Result, PartialResult, FinalResult,
    KaldiRecognizer, SetWords, len, send_text, outgoing, bind, lift, ret, raise;
  repeat match goal with
    | |- context [match ?x with _ => _ end] =>
        lazymatch x with
        | context [match _ with _ => _ end] => fail
        | _ => destruct x eqn:?
        end
    end.

(** A pass makes no call on the WebSocket, or one [send_text]; when the
    [send_text] raises, the pass raises. *)
Lemma iteration_calls rec m fs tr fs' (r : exn + flow) :
  iteration rec m fs = (tr, fs', r) ->
  (tr = [] /\ fs' = fs) \/
  (exists s, tr = [SendText s None] /\ fs' = drop 1 fs /\ exists fl, r = inr fl) \/
  (exists s e, tr = [SendText s (Some e)] /\ fs' = drop 1 fs /\ r = inl e).
Proof.
  split_iteration; intros [= <- <- <-]; cbn;
    first [ by left
          | solve [right; left; eexists; repeat split; eauto]
          | solve [right; right; eexists _, _; repeat split; eauto] ].
Qed.

Lemma paces_app (p : phase) tr tr' :
  paces p (tr ++ tr') =
    match paces p tr with
    | Some p' => paces p' tr'
    | None => None
    end.
Proof.
  revert p. induction tr as [|c tr IH]; intros p; cbn; [reflexivity|].
  destruct (pace p c); [apply IH | reflexivity].
Qed.

Lemma received_app tr tr' : received (tr ++ tr') = received tr ++ received tr'.
Proof. apply omap_app. Qed.

(** The loop reads a frame, answers it with at most one [send_text], and
    only then reads the next one; it reads the frames in their order. *)
Lemma loop_paces inbox rec fs (p : phase) tr fs' (r : exn + loop_end) :
  loop rec inbox fs = (tr, fs', r) ->
  reading p ->
  received tr `prefix_of` inbox /\
  exists p', paces p tr = Some p' /\
    match r with
    | inr _ => reading p'
    | inl _ => p' = Read \/ p' = Answered \/ p' = Failed
    end.
Proof.
  revert rec fs p tr. induction inbox as [|got inbox IH]; intros rec fs p tr.
  - cbn. unfold ret. intros [= <- <- <-] Hp. split; [done|]. by exists p.
  - rewrite loop_cons. intros Hloop Hp.
    assert (Hread : pace p (Receive got) = Some Read)
      by (by destruct Hp as [->|[->| ->]]).
    destruct got as [e|m].
    { injection Hloop as <- <- <-. cbn [paces received omap]. rewrite Hread.
      split; [by apply prefix_cons, prefix_nil|]. exists Read. auto. }
    destruct (iteration rec m fs) as [[tr1 fs1] r1] eqn:Hit.
    apply iteration_calls in Hit
      as [[-> ->]|[(s & -> & -> & fl & ->)|(s & e & -> & -> & ->)]].
    + destruct r1 as [e|[rec1|]].
      * injection Hloop as <- <- <-. cbn [paces received omap]. rewrite Hread.
        split; [by apply prefix_cons, prefix_nil|]. exists Read. auto.
      * destruct (loop rec1 inbox fs) as [[tr2 fs2] r2] eqn:Hrest.
        injection Hloop as <- <- <-.
        destruct (IH _ _ Read _ Hrest) as (Hpre & p' & Hp' & Hr);
          [unfold reading; auto|].
        cbn [app paces received omap]. rewrite Hread.
        split; [by apply prefix_cons|]. by exists p'.
      * injection Hloop as <- <- <-. cbn [paces received omap]. rewrite Hread.
        split; [by apply prefix_cons, prefix_nil|]. exists Read.
        unfold reading. auto.
    + destruct fl as [rec1|].
      * destruct (loop rec1 inbox (drop 1 fs)) as [[tr2 fs2] r2] eqn:Hrest.
        injection Hloop as <- <- <-.
        destruct (IH _ _ Answered _ Hrest) as (Hpre & p' & Hp' & Hr);
          [unfold reading; auto|].
        cbn [app paces received omap]. rewrite Hread. cbn [paces pace].
        split; [by apply prefix_cons|]. by exists p'.
      * injection Hloop as <- <- <-. cbn [paces received omap].
        rewrite Hread. cbn [paces pace].
        split; [by apply prefix_cons, prefix_nil|]. exists Answered.
        unfold reading. auto.
    + injection Hloop as <- <- <-. cbn [paces received omap].
      rewrite Hread. cbn [paces pace].
      split; [by apply prefix_cons, prefix_nil|]. exists Failed. auto.
Qed.

Lemma serve_paced rec inbox fs tr fs' (r : exn + status) :
  serve rec inbox fs = (tr, fs', r) ->
  paced tr = true /\ received tr `prefix_of` inbox.
Proof.
  rewrite serve_eq.
  destruct (loop rec inbox fs) as [[tr0 fs0] r0] eqn:Hloop.
  destruct (loop_paces _ _ _ Idle _ _ _ Hloop) as (Hpre & p' & Hp' & Hr);
    [unfold reading; auto|].
  unfold paced.
  destruct r0 as [[c|msg|msg]|e]; try (intros [= <- <- <-]; by rewrite Hp').
  destruct (outgoing_shape (Close 1011 msg) fs0) as [o Ho].
  unfold close. rewrite Ho.
  assert (Hshut : paces Idle (tr0 ++ [Close 1011 msg o]) = Some Shut).
  { rewrite paces_app, Hp'. cbn. by destruct Hr as [->|[->| ->]]. }
  assert (Hrec : received (tr0 ++ [Close 1011 msg o]) = received tr0).
  { rewrite received_app. cbn. apply app_nil_r. }
  destruct o; intros [= <- <- <-]; by rewrite Hshut, Hrec.
Qed.

Lemma ws_endpoint_eq inbox fs :
  ws_endpoint inbox fs =
    match outgoing Accept fs with
    | (tr0, fs0, inl e) => (tr0, fs0, inl e)
    | (tr0, fs0, inr _) =>
        match vosk_recognizer_new MODEL SAMPLE_RATE with
        | inl e => (tr0, fs0, inl e)
        | inr d =>
            match serve (MkRecognizer MODEL SAMPLE_RATE true d) inbox fs0 with
            | (tr, fs', r) => (tr0 ++ tr, fs', r)
            end
        end
    end.
Proof.
  unfold ws_endpoint, new_recognizer, accept, KaldiRecognizer, SetWords.
  unfold bind at 1.
  destruct (outgoing Accept fs) as [[tr0 fs0] [e|[]]]; [reflexivity|].
  unfold bind, lift, ret, raise.
  destruct (vosk_recognizer_new MODEL SAMPLE_RATE) as [e|d]; cbn.
  - by rewrite app_nil_r.
  - by destruct (serve _ inbox fs0) as [[tr fs'] r].
Qed.


(** ** The recognizer of a connection *)





(** ** Control frames *)

Lemma ws_endpoint_quiet inbox fs (d : Decoder) :
  vosk_recognizer_new MODEL SAMPLE_RATE = inr d ->
  quiet 1 fs ->
  ws_endpoint inbox fs =
    match serve (MkRecognizer MODEL SAMPLE_RATE true d) inbox (drop 1 fs) with
    | (tr, fs', r) => (Accept None :: tr, fs', r)
    end.
Proof.
  intros Hnew Hq. by rewrite ws_endpoint_eq, (outgoing_quiet _ _ Hq), Hnew.
Qed.

Lemma serve_cons_break rec m inbox fs tr1 fs1 :
  iteration rec m fs = (tr1, fs1, inr Break) ->
  serve rec (inr m :: inbox) fs = (Receive (inr m) :: tr1, fs1, inr Returned).
Proof. intros Hit. by rewrite serve_eq, loop_cons, Hit. Qed.

(** C2: in any state of the loop, when the frame is the text [__end__]
    and neither the engine nor the transport fails, the handler sends
    exactly one event, the [final] event with the parsed [FinalResult] of
    the engine, makes no other call and returns, whatever frames come
    after.  This holds in particular on a connection that begins with
    [__end__], before any audio. *)
Theorem end_flushes_final rec m inbox fs (s : string) (d : Decoder) (j : pyobj) :
  control m (PStr "__end__") ->
  vosk_recognizer_final_result rec = inr (s, d) ->
  json_loads s = inr j ->
  quiet 1 fs ->
  let final := SendText (json_dumps (MkEvent "final" (Parsed j))) None in
  serve rec (inr m :: inbox) fs = ([Receive (inr m); final], drop 1 fs, inr Returned) /\
  (forall fs0 d0,
     vosk_recognizer_new MODEL SAMPLE_RATE = inr d0 ->
     rec = MkRecognizer MODEL SAMPLE_RATE true d0 ->
     quiet 1 fs0 -> fs = drop 1 fs0 ->
     ws_endpoint (inr m :: inbox) fs0
       = ([Accept None; Receive (inr m); final], drop 1 fs, inr Returned)).
Proof.
  intros [Hb Ht] Hfinal Hj Hq final.
  assert (Hserve : serve rec (inr m :: inbox) fs
                   = ([Receive (inr m); final], drop 1 fs, inr Returned)).
  { apply serve_cons_break. unfold iteration. rewrite Hb, Ht. cbn [py_eq_str].
    rewrite String.eqb_refl.
    unfold FinalResult, bind, lift, ret, raise, send_text.
    by rewrite Hfinal, Hj, (outgoing_quiet _ _ Hq). }
  split; [exact Hserve|].
  intros fs0 d0 Hnew -> Hq0 ->.
  by rewrite (ws_endpoint_quiet _ _ _ Hnew Hq0), Hserve.
Qed.

(** C3: in any state of the loop, when the frame is the text [__reset__]
    and neither the construction of the recognizer nor the transport
    fails, the pass sends exactly one event, [system] with data [reset],
    and hands on a recognizer built as the one of a new connection is:
    the loaded model, sample rate 16000, word detail on, a new decoder.
    What the connection does after that event, on any frames, is what a
    new connection does after its [accept] on the same frames. *)
Theorem reset_is_new_session rec m inbox fs (d : Decoder) :
  control m (PStr "__reset__") ->
  vosk_recognizer_new MODEL SAMPLE_RATE = inr d ->
  quiet 1 fs ->
  let fresh := MkRecognizer MODEL 16000%Z true d in
  let reset := SendText (json_dumps (MkEvent "system" (Str "reset"))) None in
  iteration rec m fs = ([reset], drop 1 fs, inr (Next fresh)) /\
  new_recognizer (drop 1 fs) = ([], drop 1 fs, inr fresh) /\
  exists tr fs' r,
    serve rec (inr m :: inbox) fs = (Receive (inr m) :: reset :: tr, fs', r) /\
    ws_endpoint inbox fs = (Accept None :: tr, fs', r).
Proof.
  intros [Hb Ht] Hnew Hq fresh reset.
  assert (Hit : iteration rec m fs = ([reset], drop 1 fs, inr (Next fresh))).
  { unfold iteration. rewrite Hb, Ht. cbn [py_eq_str].
    replace (String.eqb "__reset__" "__end__") with false by reflexivity.
    rewrite String.eqb_refl.
    unfold KaldiRecognizer, SetWords, bind, lift, ret, raise, send_text.
    by rewrite Hnew, (outgoing_quiet _ _ Hq). }
  split; [exact Hit|]. split.
  { unfold new_recognizer, KaldiRecognizer, SetWords, bind, lift, ret, raise.
    by rewrite Hnew. }
  rewrite (serve_cons_next _ _ _ _ _ _ _ Hit), (ws_endpoint_quiet _ _ _ Hnew Hq).
  change (MkRecognizer MODEL SAMPLE_RATE true d) with fresh.
  destruct (serve fresh inbox (drop 1 fs)) as [[tr fs'] r].
  by exists tr, fs', r.
Qed.

(** ** Errors and disconnection *)

Lemma serve_raises rec inbox fs tr fs' (msg : string) :
  loop rec inbox fs = (tr, fs', inl (Exception msg)) ->
  closes_with 1011 msg tr fs' (serve rec inbox fs).
Proof.
  intros Hloop. rewrite serve_eq, Hloop.
  destruct (outgoing_shape (Close 1011 msg) fs') as [o Ho].
  unfold close. rewrite Ho. exists o. by destruct o.
Qed.

Lemma iteration_feed_raises rec m (b : list Byte.byte) fs (e : exn) :
  carries m b ->
  b <> [] ->
  feed_raises rec (PBytes b) e ->
  iteration rec m fs = ([], fs, inl e).
Proof.
  intros Hm Hb Hraise. unfold iteration. rewrite Hm.
  destruct b as [|b0 b]; [done|]. cbn [len length].
  unfold AcceptWaveform, Result, PartialResult, bind, lift, ret, raise.
  cbn [Nat.eqb].
  destruct Hraise as [Hacc|d Hacc Hres|d Hacc Hres]; rewrite Hacc; cbn;
    try rewrite Hres; reflexivity.
Qed.

(** C6: in any state of the loop, when the engine raises an exception
    with message [msg] while a non-empty payload is fed, or in
    [FinalResult] after [__end__], or when anything else in a pass of the
    loop or the [receive] itself raises such an exception, the handler
    calls [close] with code 1011 and reason [msg]; that call is its last
    one, no frame is read and nothing is sent after it. *)
Theorem error_closes_1011 rec m inbox fs (msg : string) :
  (forall b, carries m b -> b <> [] ->
     feed_raises rec (PBytes b) (Exception msg) ->
     closes_with 1011 msg [Receive (inr m)] fs (serve rec (inr m :: inbox) fs)) /\
  (control m (PStr "__end__") ->
     vosk_recognizer_final_result rec = inl (Exception msg) ->
     closes_with 1011 msg [Receive (inr m)] fs (serve rec (inr m :: inbox) fs)) /\
  (forall tr fs',
     iteration rec m fs = (tr, fs', inl (Exception msg)) ->
     closes_with 1011 msg (Receive (inr m) :: tr) fs'
       (serve rec (inr m :: inbox) fs)) /\
  closes_with 1011 msg [Receive (inl (Exception msg))] fs
    (serve rec (inl (Exception msg) :: inbox) fs).
Proof.
  assert (Hany : forall tr fs',
    iteration rec m fs = (tr, fs', inl (Exception msg)) ->
    closes_with 1011 msg (Receive (inr m) :: tr) fs'
      (serve rec (inr m :: inbox) fs)).
  { intros tr fs' Hit. apply serve_raises. by rewrite loop_cons, Hit. }
  repeat split.
  - intros b Hm Hb Hraise. apply Hany. by eapply iteration_feed_raises.
  - intros [Hb Ht] Hfinal. apply Hany. unfold iteration. rewrite Hb, Ht.
    cbn [py_eq_str]. rewrite String.eqb_refl.
    unfold FinalResult, bind, lift, ret, raise. by rewrite Hfinal.
  - exact Hany.
  - apply serve_raises. by rewrite loop_cons.
Qed.

(** C7: when the client disconnects, [receive] returns the message of the
    disconnection, which has neither a ["bytes"] nor a ["text"] entry: the
    pass does nothing and the handler calls [receive] again; that call
    raises the [RuntimeError], and the handler calls [close] with code 1011
    and its message.  So in any state of the loop a disconnection of the
    client ends in the error close, not in the silent return of the
    [except WebSocketDisconnect] clause. *)
Theorem disconnect_message_closes_1011 rec inbox fs (code : Z) :
  iteration rec (disconnect_message code) fs = ([], fs, inr (Next rec)) /\
  closes_with 1011 receive_after_disconnect
    [Receive (inr (disconnect_message code));
     Receive (inl (Exception receive_after_disconnect))] fs
    (serve rec (client_disconnects code ++ inbox) fs).
Proof.
  assert (Hit : iteration rec (disconnect_message code) fs = ([], fs, inr (Next rec))).
  { unfold iteration.
    replace (disconnect_message code !! "bytes") with (@None pyval) by reflexivity.
    by replace (disconnect_message code !! "text") with (@None pyval) by reflexivity. }
  split; [exact Hit|].
  apply serve_raises. unfold client_disconnects. cbn [app].
  by rewrite loop_cons, Hit, loop_cons.
Qed.

(** C10: a message with a ["bytes"] entry is handled as audio, by that
    entry alone and whatever its ["text"] entry is, an [__end__] or a
    [__reset__] included: a payload of bytes that is not empty is fed to
    the engine and answered with the one [partial] or [final] event, and
    the loop goes on; when the engine raises, the pass raises; an empty
    payload is passed over.  A message with neither entry makes no call on
    the WebSocket, leaves the recognizer as it was, and the handler goes on
    to the next frame. *)
Theorem bytes_before_text rec m inbox fs :
  (is_Some (m !! "bytes") ->
     iteration rec m = iteration rec (delete "text" m) /\
     forall text, iteration rec m = iteration rec (<["text" := text]> m)) /\
  (forall data, m !! "bytes" = Some data ->
     iteration rec m = iteration rec {[ "bytes" := data ]}) /\
  (forall b ev rec1,
     carries m b -> b <> [] -> fed rec (PBytes b) ev rec1 -> quiet 1 fs ->
     iteration rec m fs
       = ([SendText (json_dumps ev) None], drop 1 fs, inr (Next rec1)) /\
     serve rec (inr m :: inbox) fs =
       match serve rec1 inbox (drop 1 fs) with
       | (tr, fs', r) =>
           (Receive (inr m) :: SendText (json_dumps ev) None :: tr, fs', r)
       end) /\
  (forall b e,
     carries m b -> b <> [] -> feed_raises rec (PBytes b) e ->
     iteration rec m fs = ([], fs, inl e)) /\
  (carries m [] -> iteration rec m fs = ([], fs, inr (Next rec))) /\
  (m !! "bytes" = None -> m !! "text" = None ->
     iteration rec m fs = ([], fs, inr (Next rec)) /\
     serve rec (inr m :: inbox) fs =
       match serve rec inbox fs with
       | (tr, fs', r) => (Receive (inr m) :: tr, fs', r)
       end).
Proof.
  repeat split.
  - destruct H as [data Hdata]. unfold iteration.
    by rewrite lookup_delete_ne, Hdata.
  - intros text. destruct H as [data Hdata]. unfold iteration.
    by rewrite lookup_insert_ne, Hdata.
  - intros data Hdata. unfold iteration.
    by rewrite Hdata, lookup_singleton_eq.
  - by apply iteration_fed with b.
  - rewrite (serve_cons_next _ _ _ _ _ _ _ (iteration_fed _ _ _ _ _ _ H H0 H1 H2)).
    by destruct (serve rec1 inbox (drop 1 fs)) as [[tr fs'] r].
  - intros b e Hm Hb Hraise. by eapply iteration_feed_raises.
  - intros Hm. unfold iteration. by rewrite Hm.
  - unfold iteration. by rewrite H, H0.
  - assert (Hit : iteration rec m fs = ([], fs, inr (Next rec))).
    { unfold iteration. by rewrite H, H0. }
    by rewrite (serve_cons_next _ _ _ _ _ _ _ Hit).
Qed.

(** ** Start and end of a connection *)

(** X1: the recognizer of a connection is built before the [try]
    statement: when [accept] raises, or when the recognizer cannot be
    built, the exception leaves the handler; no frame is read and [close]
    is not called, whatever the class of the exception. *)
Theorem init_failure_propagates inbox fs (e : exn) :
  (forall fs', fs = Some e :: fs' ->
     ws_endpoint inbox fs = ([Accept (Some e)], fs', inl e)) /\
  (vosk_recognizer_new MODEL SAMPLE_RATE = inl e ->
   quiet 1 fs ->
     ws_endpoint inbox fs = ([Accept None], drop 1 fs, inl e)).
Proof.
  split.
  - intros fs' ->. by rewrite ws_endpoint_eq.
  - intros Hnew Hq. by rewrite ws_endpoint_eq, (outgoing_quiet _ _ Hq), Hnew.
Qed.

Lemma iteration_end_leaves rec m fs tr fs' rec' :
  control m (PStr "__end__") ->
  iteration rec m fs <> (tr, fs', inr (Next rec')).
Proof.
  intros [Hb Ht]. unfold iteration. rewrite Hb, Ht. cbn [py_eq_str].
  rewrite String.eqb_refl.
  unfold FinalResult, send_text, outgoing, bind, lift, ret, raise.
  destruct (vosk_recognizer_final_result rec) as [e|[s d]]; [discriminate|].
  destruct (json_loads s) as [e|j]; [discriminate|].
  destruct fs as [|[e|] fs0]; discriminate.
Qed.

(** X2: [__end__] ends the loop in every case, also when [FinalResult],
    [json.loads] or [send_text] raises: the frames after it are never read,
    and the handler is never left waiting for a frame. *)
Theorem end_is_terminal rec m inbox fs :
  control m (PStr "__end__") ->
  serve rec (inr m :: inbox) fs = serve rec [inr m] fs /\
  forall tr fs' rec',
    serve rec (inr m :: inbox) fs <> (tr, fs', inr (Awaiting rec')).
Proof.
  intros Hc.
  assert (Hsame : serve rec (inr m :: inbox) fs = serve rec [inr m] fs).
  { rewrite !serve_eq, !loop_cons.
    destruct (iteration rec m fs) as [[tr1 fs1] [e|[rec1|]]] eqn:Hit;
      try reflexivity.
    by destruct (iteration_end_leaves _ _ _ _ _ _ Hc Hit). }
  split; [exact Hsame|].
  intros tr fs' rec'. rewrite Hsame, serve_eq, loop_cons.
  destruct (iteration rec m fs) as [[tr1 fs1] [e|[rec1|]]] eqn:Hit.
  - destruct e as [c|msg|msg]; try discriminate.
    by destruct (close 1011 msg fs1) as [[tr2 fs2] [e|[]]].
  - by destruct (iteration_end_leaves _ _ _ _ _ _ Hc Hit).
  - discriminate.
Qed.

(** X3: what [__reset__] does is the same whatever recognizer the
    connection holds, also when the new recognizer cannot be built.  So
    two connections that reach a [__reset__] after different frames, with
    the transport in the same state, make the same calls and end the same
    way from the [__reset__] on. *)
Theorem reset_forgets_history rec1 rec2 m inbox fs :
  control m (PStr "__reset__") ->
  serve rec1 (inr m :: inbox) fs = serve rec2 (inr m :: inbox) fs /\
  forall rec pre1 pre2 fs1 fs2 tr1 tr2,
    loop rec pre1 fs1 = (tr1, fs, inr (Pending rec1)) ->
    loop rec pre2 fs2 = (tr2, fs, inr (Pending rec2)) ->
    exists tr fs' r,
      serve rec (pre1 ++ inr m :: inbox) fs1 = (tr1 ++ tr, fs', r) /\
      serve rec (pre2 ++ inr m :: inbox) fs2 = (tr2 ++ tr, fs', r).
Proof.
  intros [Hb Ht].
  assert (Hit : iteration rec1 m fs = iteration rec2 m fs).
  { unfold iteration. by rewrite Hb, Ht. }
  assert (Hs : serve rec1 (inr m :: inbox) fs = serve rec2 (inr m :: inbox) fs).
  { by rewrite !serve_eq, !loop_cons, Hit. }
  split; [exact Hs|].
  intros rec pre1 pre2 fs1 fs2 tr1 tr2 H1 H2.
  rewrite (serve_app _ _ _ _ _ _ _ H1), (serve_app _ _ _ _ _ _ _ H2), Hs.
  destruct (serve rec2 (inr m :: inbox) fs) as [[tr fs'] r].
  by exists tr, fs', r.
Qed.

(** X4: a message whose ["bytes"] entry is [None] is taken as audio
    whatever else it holds; [len] raises the [TypeError] and the handler
    closes the connection with code 1011 and that message, before the
    engine is called. *)
Theorem null_payload_closes_1011 rec m inbox fs :
  m !! "bytes" = Some PNone ->
  closes_with 1011 "object of type 'NoneType' has no len()"
    [Receive (inr m)] fs (serve rec (inr m :: inbox) fs).
Proof.
  intros Hm. apply serve_raises. rewrite loop_cons.
  unfold iteration. by rewrite Hm.
Qed.

(** X5: when the client goes away while the answer to an audio frame is
    sent, so that [send_text] raises [WebSocketDisconnect], the handler
    returns at once: it does not call [close] and reads no further frame.
    The same holds for a [WebSocketDisconnect] out of any pass. *)
Theorem disconnect_while_sending_is_silent rec m inbox fs (code : Z) :
  (forall b ev rec1 fs',
     carries m b -> b <> [] -> fed rec (PBytes b) ev rec1 ->
     fs = Some (WebSocketDisconnect code) :: fs' ->
     serve rec (inr m :: inbox) fs
       = ([Receive (inr m);
           SendText (json_dumps ev) (Some (WebSocketDisconnect code))],
          fs', inr Returned)) /\
  (forall tr fs',
     iteration rec m fs = (tr, fs', inl (WebSocketDisconnect code)) ->
     serve rec (inr m :: inbox) fs = (Receive (inr m) :: tr, fs', inr Returned)).
Proof.
  assert (Hany : forall tr fs',
    iteration rec m fs = (tr, fs', inl (WebSocketDisconnect code)) ->
    serve rec (inr m :: inbox) fs = (Receive (inr m) :: tr, fs', inr Returned)).
  { intros tr fs' Hit. by rewrite serve_eq, loop_cons, Hit. }
  split; [|exact Hany].
  intros b ev rec1 fs' Hm Hb Hfed ->. apply Hany.
  unfold iteration. rewrite Hm.
  destruct b as [|b0 b]; [done|]. cbn [len length].
  unfold AcceptWaveform, Result, PartialResult, bind, lift, ret, raise, send_text.
  cbn [Nat.eqb].
  destruct Hfed as [d s d' j Hacc Hres Hj|d s d' j Hacc Hres Hj];
    rewrite Hacc; cbn; rewrite Hres; cbn; by rewrite Hj.
Qed.

Lemma iteration_ignored rec m fs :
  ignored m = true -> iteration rec m fs = ([], fs, inr (Next rec)).
Proof.
  unfold ignored, iteration.
  destruct (m !! "bytes") as [[|n|[|a s]|[|b0 b]]|]; try discriminate;
    try reflexivity.
  destruct (m !! "text") as [text|]; [|reflexivity].
  destruct (py_eq_str text "__end__"); [discriminate|].
  by destruct (py_eq_str text "__reset__").
Qed.

Lemma outbound_receive got tr : outbound (Receive got :: tr) = outbound tr.
Proof. reflexivity. Qed.

Lemma emitted_receive got tr : emitted (Receive got :: tr) = emitted tr.
Proof. reflexivity. Qed.

Lemma emitted_app tr tr' : emitted (tr ++ tr') = emitted tr ++ emitted tr'.
Proof. apply omap_app. Qed.

Lemma loop_kept inbox rec fs :
  match loop rec inbox fs, loop rec (List.filter kept inbox) fs with
  | (tr1, fs1, r1), (tr2, fs2, r2) =>
      outbound tr1 = outbound tr2 /\ emitted tr1 = emitted tr2 /\
      fs1 = fs2 /\ r1 = r2
  end.
Proof.
  revert rec fs. induction inbox as [|got inbox IH]; intros rec fs.
  - cbn. by unfold ret.
  - cbn [List.filter]. destruct (kept got) eqn:Hkept.
    + rewrite !loop_cons. destruct got as [e|m]; [done|].
      destruct (iteration rec m fs) as [[tr fs'] [e|[rec'|]]]; try done.
      specialize (IH rec' fs').
      destruct (loop rec' inbox fs') as [[tr1 fs1] r1].
      destruct (loop rec' (List.filter kept inbox) fs') as [[tr2 fs2] r2].
      destruct IH as (Hout & Hem & -> & ->).
      rewrite !outbound_receive, !emitted_receive, !outbound_app, !emitted_app.
      by rewrite Hout, Hem.
    + destruct got as [e|m]; [discriminate|]. cbn in Hkept.
      apply negb_false_iff in Hkept.
      rewrite loop_cons, (iteration_ignored _ _ _ Hkept).
      specialize (IH rec fs).
      destruct (loop rec inbox fs) as [[tr1 fs1] r1].
      destruct (loop rec (List.filter kept inbox) fs) as [[tr2 fs2] r2].
      by rewrite outbound_receive, emitted_receive.
Qed.

(** X7: the frames the loop passes over (payloads of length zero, texts
    outside the vocabulary, messages with neither entry) can be taken out
    of a script, all of them at once and wherever they stand: the outgoing
    calls, the events, the state of the transport and the end of the
    connection are the same. *)
Theorem ignored_frames_are_transparent rec inbox fs :
  match serve rec inbox fs, serve rec (List.filter kept inbox) fs with
  | (tr1, fs1, r1), (tr2, fs2, r2) =>
      outbound tr1 = outbound tr2 /\ emitted tr1 = emitted tr2 /\
      fs1 = fs2 /\ r1 = r2
  end.
Proof.
  rewrite !serve_eq. pose proof (loop_kept inbox rec fs) as H.
  destruct (loop rec inbox fs) as [[tr1 fs1] r1].
  destruct (loop rec (List.filter kept inbox) fs) as [[tr2 fs2] r2].
  destruct H as (Hout & Hem & -> & ->).
  destruct r2 as [[c|msg|msg]|e]; try done.
  destruct (close 1011 msg fs2) as [[tr' fs'] [e|[]]];
    by rewrite !outbound_app, !emitted_app, Hout, Hem.
Qed.

(** ** What the handler sends and when it closes *)

Lemma iteration_loop_calls rec m fs tr fs' (r : exn + flow) :
  iteration rec m fs = (tr, fs', r) -> Forall loop_call tr.
Proof.
  split_iteration; intros [= <- <- <-]; cbn;
    repeat first
      [ apply Forall_nil_2
      | apply Forall_cons_2; [eexists; split; [|reflexivity]|] ];
    first [ by right | left; eexists _, _; split; [eassumption|]; auto ].
Qed.

Lemma loop_loop_calls inbox rec fs tr fs' (r : exn + loop_end) :
  loop rec inbox fs = (tr, fs', r) -> Forall loop_call tr.
Proof.
  revert rec fs tr. induction inbox as [|got inbox IH]; intros rec fs tr.
  - cbn. unfold ret. intros [= <- <- <-]. constructor.
  - rewrite loop_cons. destruct got as [e|m].
    { intros [= <- <- <-]. by repeat constructor. }
    destruct (iteration rec m fs) as [[tr1 fs1] r1] eqn:Hit.
    apply iteration_loop_calls in Hit.
    destruct r1 as [e|[rec1|]]; try (intros [= <- <- <-]; by constructor).
    destruct (loop rec1 inbox fs1) as [[tr2 fs2] r2] eqn:Hrest.
    intros [= <- <- <-]. constructor; [done|].
    apply Forall_app. split; [done|]. by eapply IH.
Qed.

(** The calls of the [try] statement: those of the loop, and at the end
    perhaps one [close] with code 1011. *)
Lemma serve_calls rec inbox fs tr fs' (r : exn + status) :
  serve rec inbox fs = (tr, fs', r) ->
  Forall loop_call tr \/
  exists tr0 msg o, tr = tr0 ++ [Close 1011 msg o] /\ Forall loop_call tr0.
Proof.
  rewrite serve_eq.
  destruct (loop rec inbox fs) as [[tr0 fs0] r0] eqn:Hloop.
  apply loop_loop_calls in Hloop.
  destruct r0 as [[c|msg|msg]|e]; try (intros [= <- <- <-]; by left).
  destruct (outgoing_shape (Close 1011 msg) fs0) as [o Ho].
  unfold close. rewrite Ho.
  destruct o; intros [= <- <- <-]; right; by eexists _, _, _.
Qed.

Lemma loop_call_protocol (c : io) : loop_call c -> protocol_call c.
Proof. by destruct c. Qed.

(** X8: every text the handler sends on a connection is the serialisation
    of a [partial] or [final] event that carries an object parsed by
    [json.loads], or of the [system] event [reset]; it sends no other
    text. *)
Theorem sends_only_protocol_events inbox fs :
  match ws_endpoint inbox fs with
  | (tr, _, _) => Forall protocol_call tr
  end.
Proof.
  rewrite ws_endpoint_eq.
  destruct (outgoing_shape Accept fs) as [o ->].
  destruct o as [e|]; [by repeat constructor|].
  destruct (vosk_recognizer_new MODEL SAMPLE_RATE) as [e|d];
    [by repeat constructor|].
  destruct (serve _ inbox (drop 1 fs)) as [[tr fs'] r] eqn:Hs.
  cbn [app]. constructor; [done|].
  destruct (serve_calls _ _ _ _ _ _ Hs) as [Hall|(tr0 & msg & o & -> & Hall)].
  - eapply Forall_impl; [exact Hall | apply loop_call_protocol].
  - apply Forall_app. split; [|by repeat constructor].
    eapply Forall_impl; [exact Hall | apply loop_call_protocol].
Qed.

(** X9: on every connection the handler calls [close] at most once, only
    with code 1011, and only as its last call. *)
Theorem close_is_last_and_1011 inbox fs :
  match ws_endpoint inbox fs with
  | (tr, _, _) =>
      forall (i : nat) code reason o,
        tr !! i = Some (Close code reason o) ->
        code = 1011%Z /\ S i = length tr
  end.
Proof.
  rewrite ws_endpoint_eq.
  destruct (outgoing_shape Accept fs) as [o0 ->].
  destruct o0 as [e|]; [by intros [|[|i]] code reason o|].
  destruct (vosk_recognizer_new MODEL SAMPLE_RATE) as [e|d];
    [by intros [|[|i]] code reason o|].
  destruct (serve _ inbox (drop 1 fs)) as [[tr fs'] r] eqn:Hs.
  cbn [app]. intros [|i] code reason o; [discriminate|].
  change ((Accept None :: tr) !! S i) with (tr !! i).
  destruct (serve_calls _ _ _ _ _ _ Hs) as [Hall|(tr0 & msg & o' & -> & Hall)];
    intros Hi.
  - by destruct (proj1 (Forall_lookup _ _) Hall _ _ Hi).
  - destruct (decide (i < length tr0)%nat) as [Hlt|Hge].
    + rewrite lookup_app_l in Hi by done.
      by destruct (proj1 (Forall_lookup _ _) Hall _ _ Hi).
    + rewrite lookup_app_r in Hi by lia.
      destruct (i - length tr0)%nat as [|k] eqn:Hk; [|by destruct k].
      injection Hi as <- _ _. split; [reflexivity|].
      cbn [length]. rewrite length_app. cbn. lia.
Qed.

(** X10: an exception raised inside the loop leaves the handler only when
    it is outside [Exception]; any other exception that leaves the [try]
    statement was raised by the [close] call itself.  In particular no
    [WebSocketDisconnect] raised by [receive] or [send_text] leaves it. *)
Theorem only_close_or_base_escapes rec inbox fs tr fs' (e : exn) :
  serve rec inbox fs = (tr, fs', inl e) ->
  (exists msg, e = BaseException msg /\ Forall loop_call tr) \/
  (exists tr0 reason, tr = tr0 ++ [Close 1011 reason (Some e)] /\
                      Forall loop_call tr0).
Proof.
  rewrite serve_eq.
  destruct (loop rec inbox fs) as [[tr0 fs0] r0] eqn:Hloop.
  apply loop_loop_calls in Hloop.
  destruct r0 as [[c|msg|msg]|en]; try discriminate.
  - destruct (outgoing_shape (Close 1011 msg) fs0) as [o Ho].
    unfold close. rewrite Ho.
    destruct o as [e'|]; intros [= <- <- <-]. right. by eexists _, _.
  - intros [= <- <- <-]. left. by eexists.
Qed.

Lemma emitted_cons (c : io) tr :
  emitted (c :: tr) =
    match c with
    | SendText s None => s :: emitted tr
    | _ => emitted tr
    end.
Proof. by destruct c as [o|got|s [e|]|code reason o]. Qed.

Lemma received_cons (c : io) tr :
  received (c :: tr) =
    match c with
    | Receive got => got :: received tr
    | _ => received tr
    end.
Proof. by destruct c. Qed.

Lemma paces_credit (p p' : phase) tr :
  paces p tr = Some p' ->
  (length (emitted tr) + credit p' <= length (received tr) + credit p)%nat.
Proof.
  revert p. induction tr as [|c tr IH]; intros p.
  - cbn. intros [= <-]. lia.
  - cbn [paces]. destruct (pace p c) as [q|] eqn:Hq; [|discriminate].
    intros Hrest. apply IH in Hrest.
    destruct c as [o|got|s [e|]|code reason o], p; cbn in Hq; try discriminate;
      injection Hq as <-; rewrite emitted_cons, received_cons;
      cbn [length credit] in *; lia.
Qed.

(** X11: on every script, from any state of the loop, the events sent are
    at most as many as the frames read, and the frames read at most as
    many as the script holds. *)
Theorem events_bounded_by_frames rec inbox fs :
  match serve rec inbox fs with
  | (tr, _, _) =>
      (length (emitted tr) <= length (received tr))%nat /\
      (length (received tr) <= length inbox)%nat
  end.
Proof.
  destruct (serve rec inbox fs) as [[tr fs'] r] eqn:Hs.
  destruct (serve_paced _ _ _ _ _ _ Hs) as [Hpaced Hpre].
  split; [|by apply prefix_length].
  unfold paced in Hpaced.
  destruct (paces Idle tr) as [p'|] eqn:Hp; [|discriminate].
  apply paces_credit in Hp. cbn in Hp. lia.
Qed.

(** ** A connection on which nothing fails *)





End Facts.

(** * The theorems at work on the small engine *)

Import Toy.

(** Three chunks of two bytes: a partial, a segment, a partial. *)
Lemma one_event_per_chunk_witness :
  Forall (fun m => exists b, carries m b /\ b <> []) audio_frames /\
  @loop vosk json (buffered 0) (inr <$> audio_frames) []
    = (concat (zip_with (@exchange json) audio_frames answers), [],
       inr (@Pending vosk (buffered 2))) /\
  exists evs : list (event string),
    @feeds vosk json (buffered 0) audio_frames evs (buffered 2) /\
    concat (zip_with (@exchange json) audio_frames answers)
      = concat (zip_with (@exchange json) audio_frames evs) /\
    emitted (concat (zip_with (@exchange json) audio_frames answers))
      = dumps <$> evs /\
    length evs = length audio_frames /\
    Forall (fun ev => ev_type ev = "partial" \/ ev_type ev = "final") evs.
Proof.
  assert (H1 : Forall (fun m => exists b, carries m b /\ b <> []) audio_frames).
  { repeat constructor; exists chunk; split; (reflexivity || discriminate). }
  assert (H2 : @loop vosk json (buffered 0) (inr <$> audio_frames) []
               = (concat (zip_with (@exchange json) audio_frames answers), [],
                  inr (@Pending vosk (buffered 2)))) by reflexivity.
  split; [exact H1|]. split; [exact H2|].
  exact (@one_event_per_chunk vosk json _ _ _ _ _ _ H1 H2).
Defined.

(** [__end__] as the first frame of a connection: one [final] event with
    the engine's empty result, and the handler returns without reading
    the frame after it. *)
Lemma end_flushes_final_witness :
  control (text "__end__") (PStr "__end__") /\
  @ws_endpoint vosk json [inr (text "__end__"); inr (audio chunk)] []
    = ([Accept None; Receive (inr (text "__end__")); SendText "final: text " None],
       [], inr (@Returned vosk)).
Proof.
  assert (Hc : control (text "__end__") (PStr "__end__")) by (by split).
  split; [exact Hc|].
  refine (proj2 (@end_flushes_final vosk json (buffered 0) (text "__end__")
                   [inr (audio chunk)] [] "text " O "text " Hc _ _ _)
            [] O _ _ _ _);
    first [reflexivity | constructor].
Defined.

(** [__reset__] after two buffered bytes: the connection goes on as a new
    one does. *)
Lemma reset_is_new_session_witness :
  control (text "__reset__") (PStr "__reset__") /\
  @iteration vosk json (buffered 2) (text "__reset__") []
    = ([SendText "system: reset" None], [], inr (@Next vosk (buffered 0))) /\
  exists tr fs' r,
    @serve vosk json (buffered 2) [inr (text "__reset__"); inr (audio chunk)] []
      = (Receive (inr (text "__reset__")) :: SendText "system: reset" None :: tr,
         fs', r) /\
    @ws_endpoint vosk json [inr (audio chunk)] [] = (Accept None :: tr, fs', r).
Proof.
  assert (Hc : control (text "__reset__") (PStr "__reset__")) by (by split).
  split; [exact Hc|].
  assert (Hq : quiet 1 []) by constructor.
  destruct (@reset_is_new_session vosk json (buffered 2) (text "__reset__")
              [inr (audio chunk)] [] O Hc eq_refl Hq) as (Hit & _ & Hrest).
  split; [exact Hit | exact Hrest].
Defined.

(** An empty chunk between two chunks. *)
Lemma empty_chunk_is_noop_witness :
  carries (audio []) [] /\
  @iteration vosk json (buffered 0) (audio []) []
    = ([], [], inr (@Next vosk (buffered 0))) /\
  match @serve vosk json (buffered 0)
          ([inr (audio chunk)] ++ inr (audio []) :: [inr (audio chunk)]) [],
        @serve vosk json (buffered 0)
          ([inr (audio chunk)] ++ [inr (audio chunk)]) []
  with
  | (tr1, fs1, r1), (tr2, fs2, r2) =>
      outbound tr1 = outbound tr2 /\ emitted tr1 = emitted tr2 /\
      fs1 = fs2 /\ r1 = r2
  end.
Proof.
  assert (Hc : carries (audio []) []) by reflexivity.
  split; [exact Hc|].
  exact (@empty_chunk_is_noop vosk json (buffered 0) (audio [])
           [inr (audio chunk)] [inr (audio chunk)] [] Hc).
Defined.

(** A text frame outside the vocabulary. *)
Lemma unknown_text_is_ignored_witness :
  control (text "foo") (PStr "foo") /\
  @iteration vosk json (buffered 2) (text "foo") [] = ([], [], inr (@Next vosk (buffered 2))).
Proof.
  assert (Hc : control (text "foo") (PStr "foo")) by (by split).
  split; [exact Hc|].
  refine (proj1 (@unknown_text_is_ignored vosk json (buffered 2) (text "foo")
                   (PStr "foo") [] [] Hc _ _)); discriminate.
Defined.

(** A payload of three bytes is refused by the engine. *)
Lemma error_closes_1011_witness :
  @feed_raises vosk (buffered 2) (PBytes odd_chunk)
    (Exception "Failed to process waveform") /\
  @closes_with vosk 1011 "Failed to process waveform"
    [Receive (inr (audio odd_chunk))] []
    (@serve vosk json (buffered 2) [inr (audio odd_chunk); inr (audio chunk)] []).
Proof.
  assert (Hr : @feed_raises vosk (buffered 2) (PBytes odd_chunk)
                 (Exception "Failed to process waveform"))
    by (by apply raises_accept).
  split; [exact Hr|].
  refine (proj1 (@error_closes_1011 vosk json (buffered 2) (audio odd_chunk)
                   [inr (audio chunk)] [] "Failed to process waveform")
            odd_chunk eq_refl _ Hr).
  discriminate.
Defined.

(** ** Whole connections *)

(** A connection that resets before any audio, feeds one chunk and ends:
    the [system] event, a [partial] event, the [final] event. *)
Example reset_then_audio_then_end :
  @ws_endpoint vosk json
    [inr (text "__reset__"); inr (audio chunk); inr (text "__end__")] []
  = ([Accept None;
      Receive (inr (text "__reset__")); SendText "system: reset" None;
      Receive (inr (audio chunk)); SendText "partial: partial ##" None;
      Receive (inr (text "__end__")); SendText "final: text ##" None],
     [], inr (@Returned vosk)).
Proof. reflexivity. Qed.

(** The test for the ["bytes"] key comes first: a message that has the key
    with the value [None] beside its text is taken as audio, [len] raises,
    and the connection is closed with code 1011. *)
Example null_bytes_entry_is_an_error :
  outbound (fst (fst (@ws_endpoint vosk json
    [inr (<["bytes" := PNone]> (text "__end__")); inr (audio chunk)] [])))
  = [Accept None; Close 1011 "object of type 'NoneType' has no len()" None].
Proof. reflexivity. Qed.

(** The transport loses the client while an event is sent: [send_text]
    raises [WebSocketDisconnect] and the handler returns without [close]. *)
Example disconnect_while_sending :
  outbound (fst (fst (@ws_endpoint vosk json
    [inr (audio chunk); inr (audio chunk)]
    [None; Some (WebSocketDisconnect 1006)])))
  = [Accept None; SendText "partial: partial ##" (Some (WebSocketDisconnect 1006))].
Proof. reflexivity. Qed.

(** ** Start, end and failures on the small engines *)

(** No recogniser can be built: the handler raises after [accept]. *)
Lemma init_failure_propagates_witness :
  @vosk_recognizer_new broken (@MODEL broken) SAMPLE_RATE
    = inl (Exception "Failed to create a recognizer") /\
  @ws_endpoint broken json [inr (audio chunk)] []
    = ([Accept None], [], inl (Exception "Failed to create a recognizer")).
Proof.
  split; [reflexivity|].
  refine (proj2 (@init_failure_propagates broken json [inr (audio chunk)] []
                   (Exception "Failed to create a recognizer")) eq_refl _).
  constructor.
Defined.

(** The chunk after [__end__] is not read. *)
Lemma end_is_terminal_witness :
  control (text "__end__") (PStr "__end__") /\
  @serve vosk json (buffered 2) [inr (text "__end__"); inr (audio chunk)] []
    = @serve vosk json (buffered 2) [inr (text "__end__")] [].
Proof.
  assert (Hc : control (text "__end__") (PStr "__end__")) by (by split).
  split; [exact Hc|].
  exact (proj1 (@end_is_terminal vosk json (buffered 2) (text "__end__")
                  [inr (audio chunk)] [] Hc)).
Defined.

(** A reset as the first frame, and a reset after one chunk. *)
Lemma reset_forgets_history_witness :
  control (text "__reset__") (PStr "__reset__") /\
  exists tr fs' r,
    @serve vosk json (buffered 0)
      ([] ++ inr (text "__reset__") :: [inr (audio chunk)]) []
      = ([] ++ tr, fs', r) /\
    @serve vosk json (buffered 0)
      ([inr (audio chunk)] ++ inr (text "__reset__") :: [inr (audio chunk)]) []
      = (@exchange json (audio chunk) (MkEvent "partial" (Parsed "partial ##")) ++ tr,
         fs', r).
Proof.
  assert (Hc : control (text "__reset__") (PStr "__reset__")) by (by split).
  split; [exact Hc|].
  exact (proj2 (@reset_forgets_history vosk json (buffered 0) (buffered 2)
                  (text "__reset__") [inr (audio chunk)] [] Hc)
           (buffered 0) [] [inr (audio chunk)] [] [] _ _ eq_refl eq_refl).
Defined.

(** A text frame delivered with a ["bytes"] entry that is [None]. *)
Lemma null_payload_closes_1011_witness :
  (<["bytes" := PNone]> (text "__end__") : message) !! "bytes" = Some PNone /\
  @closes_with vosk 1011 "object of type 'NoneType' has no len()"
    [Receive (inr (<["bytes" := PNone]> (text "__end__")))] []
    (@serve vosk json (buffered 2)
       [inr (<["bytes" := PNone]> (text "__end__")); inr (audio chunk)] []).
Proof.
  assert (Hm : (<["bytes" := PNone]> (text "__end__") : message) !! "bytes"
               = Some PNone) by reflexivity.
  split; [exact Hm|].
  exact (@null_payload_closes_1011 vosk json (buffered 2) _ [inr (audio chunk)] [] Hm).
Defined.

(** The client goes away while the first partial is sent. *)
Lemma disconnect_while_sending_is_silent_witness :
  @fed vosk json (buffered 0) (PBytes chunk)
    (MkEvent "partial" (Parsed "partial ##")) (buffered 2) /\
  @serve vosk json (buffered 0) [inr (audio chunk); inr (audio chunk)]
    [Some (WebSocketDisconnect 1006); None]
    = ([Receive (inr (audio chunk));
        SendText "partial: partial ##" (Some (WebSocketDisconnect 1006))],
       [None], inr (@Returned vosk)).
Proof.
  assert (Hfed : @fed vosk json (buffered 0) (PBytes chunk)
                   (MkEvent "partial" (Parsed "partial ##")) (buffered 2)).
  { exact (@fed_partial vosk json (buffered 0) (PBytes chunk) 2 "partial ##" 2
             "partial ##" eq_refl eq_refl eq_refl). }
  split; [exact Hfed|].
  refine (proj1 (@disconnect_while_sending_is_silent vosk json (buffered 0)
                   (audio chunk) [inr (audio chunk)]
                   [Some (WebSocketDisconnect 1006); None] 1006%Z)
            chunk _ _ [None] eq_refl _ Hfed eq_refl).
  discriminate.
Defined.

(** The engine refuses a payload and [close] raises in its turn. *)
Lemma only_close_or_base_escapes_witness :
  @serve vosk json (buffered 0) [inr (audio odd_chunk)] [Some (Exception "gone")]
    = ([Receive (inr (audio odd_chunk));
        Close 1011 "Failed to process waveform" (Some (Exception "gone"))],
       [], inl (Exception "gone")) /\
  ((exists msg, Exception "gone" = BaseException msg /\
      Forall (@loop_call json)
        [Receive (inr (audio odd_chunk));
         Close 1011 "Failed to process waveform" (Some (Exception "gone"))]) \/
   (exists tr0 reason,
      [Receive (inr (audio odd_chunk));
       Close 1011 "Failed to process waveform" (Some (Exception "gone"))]
        = tr0 ++ [Close 1011 reason (Some (Exception "gone"))] /\
      Forall (@loop_call json) tr0)).
Proof.
  assert (H : @serve vosk json (buffered 0) [inr (audio odd_chunk)]
                [Some (Exception "gone")]
              = ([Receive (inr (audio odd_chunk));
                  Close 1011 "Failed to process waveform" (Some (Exception "gone"))],
                 [], inl (Exception "gone"))) by reflexivity.
  split; [exact H|].
  exact (@only_close_or_base_escapes vosk json _ _ _ _ _ _ H).
Defined.


(** ** Disconnection and messages with both entries *)

(** The client disconnects after one chunk: the handler calls [close] with
    code 1011. *)
Example client_disconnect_ends_in_1011 :
  @ws_endpoint vosk json ([inr (audio chunk)] ++ client_disconnects 1001) []
  = ([Accept None;
      Receive (inr (audio chunk)); SendText "partial: partial ##" None;
      Receive (inr (disconnect_message 1001));
      Receive (inl (Exception receive_after_disconnect));
      Close 1011 receive_after_disconnect None],
     [], inr (@Returned vosk)).
Proof. reflexivity. Qed.

(** A message with a chunk and the text [__end__]: the chunk is fed and
    answered with a partial, and the loop goes on to the next frame. *)
Lemma bytes_before_text_witness :
  carries (<["text" := PStr "__end__"]> (audio chunk)) chunk /\
  @fed vosk json (buffered 0) (PBytes chunk)
    (MkEvent "partial" (Parsed "partial ##")) (buffered 2) /\
  @serve vosk json (buffered 0)
    [inr (<["text" := PStr "__end__"]> (audio chunk)); inr (audio chunk)] []
  = ([Receive (inr (<["text" := PStr "__end__"]> (audio chunk)));
      SendText "partial: partial ##" None;
      Receive (inr (audio chunk)); SendText "final: text ####" None],
     [], inr (@Awaiting vosk (buffered 0))).
Proof.
  assert (Hm : carries (<["text" := PStr "__end__"]> (audio chunk)) chunk)
    by reflexivity.
  assert (Hfed : @fed vosk json (buffered 0) (PBytes chunk)
                   (MkEvent "partial" (Parsed "partial ##")) (buffered 2)).
  { exact (@fed_partial vosk json (buffered 0) (PBytes chunk) 2 "partial ##" 2
             "partial ##" eq_refl eq_refl eq_refl). }
  split; [exact Hm|]. split; [exact Hfed|].
  assert (Hq : quiet 1 []) by constructor.
  assert (Hb : chunk <> []) by discriminate.
  pose proof (proj2 (proj1 (proj2 (proj2
    (@bytes_before_text vosk json (buffered 0)
       (<["text" := PStr "__end__"]> (audio chunk)) [inr (audio chunk)] [])))
    chunk _ _ Hm Hb Hfed Hq)) as H.
  rewrite H. reflexivity.
Defined.
